(** * Snake: a shallow embedding of [src/main.rs] and its specification.

    Integers of the source are [i32]; they are modelled as [Z] and every
    arithmetic operation of the source goes through a checked operation: with
    the default (dev) profile of Cargo, an [i32] overflow panics.  Every
    function that can panic returns an [outcome]; the food relocation loop
    draws from the random generator, modelled as a finite list of draws, and
    [Exhausted] records that the loop has not stopped within the given draws. *)

From Stdlib Require Import ZArith List String Ascii Bool Lia DecimalString.
Import ListNotations.
Open Scope Z_scope.

(** ** Outcomes and checked [i32] arithmetic *)

Inductive outcome (A : Type) : Type :=
| Ret (a : A)
| Panic (msg : string)
| Exhausted.
Arguments Ret {A} a.
Arguments Panic {A} msg.
Arguments Exhausted {A}.

Definition bind {A B} (m : outcome A) (k : A -> outcome B) : outcome B :=
  match m with
  | Ret a => k a
  | Panic msg => Panic msg
  | Exhausted => Exhausted
  end.

Notation "'let*' x ':=' m 'in' k" := (bind m (fun x => k))
  (at level 200, x pattern, m at level 100, right associativity).

Definition i32_min : Z := -2147483648.
Definition i32_max : Z := 2147483647.

Definition in_i32 (z : Z) : bool := (i32_min <=? z) && (z <=? i32_max).

Definition checked (z : Z) : outcome Z :=
  if in_i32 z then Ret z else Panic "attempt to overflow"%string.

Definition add32 (a b : Z) : outcome Z := checked (a + b).
Definition sub32 (a b : Z) : outcome Z := checked (a - b).

(** Rust's [/] on [i32] rounds toward zero ([Z.quot]) and panics on a zero
    divisor or on [i32::MIN / -1]. *)
Definition div32 (a b : Z) : outcome Z :=
  if b =? 0 then Panic "attempt to divide by zero"%string
  else checked (Z.quot a b).

(** ** Food *)

Record Food := mkFood { food_y : Z; food_x : Z; food_ch : ascii }.

Definition Food_is_collide (f : Food) (y x : Z) : bool :=
  (food_y f =? y) && (food_x f =? x).

(** ** Direction *)

Inductive Direction := Down | Right | Up | Left.

Definition Direction_eqb (a b : Direction) : bool :=
  match a, b with
  | Down, Down | Right, Right | Up, Up | Left, Left => true
  | _, _ => false
  end.

(** The characters of [Direction::input]; any other input gives [None]. *)
Definition Direction_input (c : ascii) : option Direction :=
  if Ascii.eqb c "w" then Some Up
  else if Ascii.eqb c "a" then Some Left
  else if Ascii.eqb c "s" then Some Down
  else if Ascii.eqb c "d" then Some Right
  else if Ascii.eqb c "h" then Some Left
  else if Ascii.eqb c "j" then Some Down
  else if Ascii.eqb c "k" then Some Up
  else if Ascii.eqb c "l" then Some Right
  else None.

(** ** SnakePiece: [(y, x)] *)

Record SnakePiece := mkPiece { piece_y : Z; piece_x : Z }.

(** A match arm's guard is evaluated only when its pattern matches, so
    [rows - 1] is computed only when heading [Down], [cols - 1] only when
    heading [Right]. *)
Definition SnakePiece_is_collide_edge (p : SnakePiece) (dir : Direction)
    (rows cols : Z) : outcome bool :=
  match dir with
  | Down => let* r1 := sub32 rows 1 in Ret (r1 <=? piece_y p)
  | Right => let* c1 := sub32 cols 1 in Ret (c1 <=? piece_x p)
  | Up => Ret (piece_y p <=? 0)
  | Left => Ret (piece_x p <=? 0)
  end.

Definition SnakePiece_update (p : SnakePiece) (dir : Direction) : outcome SnakePiece :=
  match dir with
  | Down => let* y := add32 (piece_y p) 1 in Ret (mkPiece y (piece_x p))
  | Right => let* x := add32 (piece_x p) 1 in Ret (mkPiece (piece_y p) x)
  | Up => let* y := sub32 (piece_y p) 1 in Ret (mkPiece y (piece_x p))
  | Left => let* x := sub32 (piece_x p) 1 in Ret (mkPiece (piece_y p) x)
  end.

(** ** Snake *)

Record Snake := mkSnake {
  parts : list SnakePiece;   (* the [LinkedList], front first *)
  dir : Direction;
  just_eaten : bool;
  score : Z;
  speed : Z
}.

Definition set_parts (s : Snake) (ps : list SnakePiece) : Snake :=
  mkSnake ps (dir s) (just_eaten s) (score s) (speed s).
Definition set_dir (s : Snake) (d : Direction) : Snake :=
  mkSnake (parts s) d (just_eaten s) (score s) (speed s).
Definition set_just_eaten (s : Snake) (b : bool) : Snake :=
  mkSnake (parts s) (dir s) b (score s) (speed s).

Definition Snake_set_direction (s : Snake) (new_dir : Direction) : Snake :=
  let last_dir := dir s in
  set_dir s
    (match new_dir with
     | Left  => if negb (Direction_eqb last_dir Right) then Left  else last_dir
     | Down  => if negb (Direction_eqb last_dir Up)    then Down  else last_dir
     | Up    => if negb (Direction_eqb last_dir Down)  then Up    else last_dir
     | Right => if negb (Direction_eqb last_dir Left)  then Right else last_dir
     end).

Definition Snake_is_collide (s : Snake) (y x : Z) : bool :=
  existsb (fun p => (y =? piece_y p) && (x =? piece_x p)) (parts s).

(** [LinkedList::pop_back] *)
Fixpoint pop_back {A} (l : list A) : option (list A * A) :=
  match l with
  | [] => None
  | [a] => Some ([], a)
  | a :: l' =>
      match pop_back l' with
      | Some (l'', z) => Some (a :: l'', z)
      | None => None
      end
  end.

(** [Snake::update]: the boolean result together with the snake after the
    call (the method takes [&mut self]). *)
Definition Snake_update (s : Snake) (rows cols : Z) : outcome (bool * Snake) :=
  match parts s with
  | [] => Panic "Snake has no body"%string
  | front :: _ =>
      let new_head := front in
      let* edge := SnakePiece_is_collide_edge new_head (dir s) rows cols in
      if edge then Ret (false, s) else
      let* new_head := SnakePiece_update new_head (dir s) in
      if Snake_is_collide s (piece_y new_head) (piece_x new_head) then Ret (false, s) else
      let s := set_parts s (new_head :: parts s) in
      if just_eaten s then
        let* sc := add32 (score s) 1 in
        let* q := div32 (speed s) 10 in
        let* sp := sub32 (speed s) q in
        Ret (true, mkSnake (parts s) (dir s) false sc sp)
      else
        match pop_back (parts s) with
        | Some (ps, _) => Ret (true, set_parts s ps)
        | None => Panic "called `Option::unwrap()` on a `None` value"%string
        end
  end.

(** ** Food relocation *)

(** [rng.gen_range(lo..hi)] from one draw of the generator: a value of
    [[lo, hi)], and a panic on an empty range, as [rand] does. *)
Definition gen_range (lo hi draw : Z) : outcome Z :=
  if hi <=? lo then Panic "cannot sample empty range"%string
  else Ret (lo + draw mod (hi - lo)).

(** The [loop] of [Food::update]: two draws per iteration, [new_y] first. *)
Fixpoint relocate (rows cols : Z) (snake : Snake) (draws : list Z)
    : outcome (Z * Z) :=
  match draws with
  | [] => Exhausted
  | d1 :: r1 =>
      let* new_y := gen_range 0 rows d1 in
      match r1 with
      | [] => Exhausted
      | d2 :: r2 =>
          let* new_x := gen_range 0 cols d2 in
          if negb (Snake_is_collide snake new_y new_x) then Ret (new_y, new_x)
          else relocate rows cols snake r2
      end
  end.

Definition Food_update (f : Food) (rows cols : Z) (snake : Snake) (draws : list Z)
    : outcome (bool * Food) :=
  match parts snake with
  | [] => Panic "called `Option::unwrap()` on a `None` value"%string
  | snake_head :: _ =>
      let eaten := Food_is_collide f (piece_y snake_head) (piece_x snake_head) in
      if eaten then
        let* (new_y, new_x) := relocate rows cols snake draws in
        Ret (eaten, mkFood new_y new_x (food_ch f))
      else Ret (eaten, f)
  end.

(** ** Game *)

Record Game := mkGame { rows : Z; cols : Z; snake : Snake; food : Food }.

Definition set_snake (g : Game) (s : Snake) : Game :=
  mkGame (rows g) (cols g) s (food g).

Definition Game_input (g : Game) (c : ascii) : Game :=
  match Direction_input c with
  | Some d => set_snake g (Snake_set_direction (snake g) d)
  | None => g
  end.

Definition Game_update (g : Game) (draws : list Z) : outcome (bool * Game) :=
  let* (ok, s) := Snake_update (snake g) (rows g) (cols g) in
  let g := set_snake g s in
  if negb ok then Ret (false, g) else
  let* (eaten, f) := Food_update (food g) (rows g) (cols g) (snake g) draws in
  Ret (true, mkGame (rows g) (cols g) (set_just_eaten (snake g) eaten) f).

(** The [Game] built by [main]; [max_y] and [max_x] are
    [window.get_max_y()] and [window.get_max_x()]. *)
Definition init_game (max_y max_x : Z) : outcome Game :=
  let* hy := div32 max_y 2 in
  let* hx := div32 max_x 2 in
  let* hx1 := sub32 hx 1 in
  let* fy := add32 hy 5 in
  let* fx := add32 hy 5 in
  Ret (mkGame max_y max_x
         (mkSnake [mkPiece hy hx; mkPiece hy hx1] Right false 0 500)
         (mkFood fy fx ".")).

(** The states of the main loop: the initial game, then any number of
    inputs and of successful [Game::update] calls. *)
Inductive reachable (max_y max_x : Z) : Game -> Prop :=
| reach_init g : init_game max_y max_x = Ret g -> reachable max_y max_x g
| reach_input g c : reachable max_y max_x g -> reachable max_y max_x (Game_input g c)
| reach_update g draws g' :
    reachable max_y max_x g -> Game_update g draws = Ret (true, g') ->
    reachable max_y max_x g'.

(** An [i32] snake: every field of the record is a value of its type. *)
Definition piece_wf (p : SnakePiece) : bool := in_i32 (piece_y p) && in_i32 (piece_x p).
Definition snake_wf (s : Snake) : bool :=
  forallb piece_wf (parts s) && in_i32 (score s) && in_i32 (speed s).

Example ex_update_right :
  Snake_update (mkSnake [mkPiece 5 5; mkPiece 5 4] Right false 0 500) 10 10
  = Ret (true, mkSnake [mkPiece 5 6; mkPiece 5 5] Right false 0 500).
Proof. reflexivity. Qed.

Example ex_game_eat :
  Game_update (mkGame 10 10 (mkSnake [mkPiece 5 5; mkPiece 5 4] Right false 0 500)
                 (mkFood 5 6 ".")) [3; 7]
  = Ret (true, mkGame 10 10 (mkSnake [mkPiece 5 6; mkPiece 5 5] Right true 0 500)
                 (mkFood 3 7 ".")).
Proof. reflexivity. Qed.

(** ** Rendering *)

(** [itertools::Position], as [with_position] tags the items of a list. *)
Inductive Position := First | Middle | Last | Only.

Fixpoint tag_rest {A} (l : list A) : list (Position * A) :=
  match l with
  | [] => []
  | [b] => [(Last, b)]
  | b :: r => (Middle, b) :: tag_rest r
  end.

Definition with_position {A} (l : list A) : list (Position * A) :=
  match l with
  | [] => []
  | [a] => [(Only, a)]
  | a :: r => (First, a) :: tag_rest r
  end.

Definition SnakePiece_get_visible_part (pos : Position) : ascii :=
  match pos with
  | First => "@"
  | Middle => "O"
  | Last => "o"
  | Only => "@"
  end.

(** The curses calls a frame makes, in order. *)
Inductive Cmd :=
| Bkgd (pair : Z)
| Erase
| AddStr (y x : Z) (s : string)
| AddCh (y x : Z) (c : ascii).


Definition Snake_render (s : Snake) : list Cmd :=
  map (fun '(pos, p) => AddCh (piece_y p) (piece_x p) (SnakePiece_get_visible_part pos))
      (with_position (parts s)).



(** ** The main loop *)

(** The keys [getch] can return: a character (one that is not ASCII gives
    [None] in [Direction::input], as [OtherKey] does), F1, or any other key. *)
Inductive Input := Character (c : ascii) | KeyF1 | OtherKey.

(** [Game::input] *)
Definition Game_input_key (g : Game) (i : Input) : Game :=
  match i with
  | Character c => Game_input g c
  | _ => g
  end.

(** The [while !quit] loop of [main]: each tick renders the game, takes one
    key ([None] when the timeout elapsed) and the draws its food update may
    use.  The result is the list of games rendered and the final game;
    [Exhausted] when the ticks run out while the loop still runs. *)
Fixpoint main_loop (g : Game) (ticks : list (option Input * list Z))
    : outcome (list Game * Game) :=
  match ticks with
  | [] => Exhausted
  | (key, draws) :: rest =>
      let rendered := g in
      let '(quit, g) :=
        match key with
        | Some KeyF1 => (true, g)
        | Some i => (false, Game_input_key g i)
        | None => (false, g)
        end in
      let* (ok, g) := Game_update g draws in
      let quit := if negb ok then true else quit in
      if quit then Ret ([rendered], g)
      else let* (frames, g) := main_loop g rest in Ret (rendered :: frames, g)
  end.

(** A cell of the play area. *)
Definition in_grid (max_y max_x : Z) (p : SnakePiece) : Prop :=
  0 <= piece_y p < max_y /\ 0 <= piece_x p < max_x.

(** Every cell of a [max_y] x [max_x] grid, row by row. *)
Definition grid_cells (max_y max_x : Z) : list SnakePiece :=
  flat_map (fun y => map (fun x => mkPiece y x) (map Z.of_nat (seq 0 (Z.to_nat max_x))))
           (map Z.of_nat (seq 0 (Z.to_nat max_y))).

(** ** General facts *)

Lemma in_i32_spec (z : Z) : in_i32 z = true <-> i32_min <= z <= i32_max.
Proof. unfold in_i32. rewrite andb_true_iff, !Z.leb_le. tauto. Qed.

Lemma checked_in (z : Z) : i32_min <= z <= i32_max -> checked z = Ret z.
Proof. intro H. unfold checked. apply in_i32_spec in H. now rewrite H. Qed.

Lemma checked_Ret (z r : Z) : checked z = Ret r -> r = z /\ i32_min <= z <= i32_max.
Proof.
  unfold checked. destruct (in_i32 z) eqn:E; intro H; inversion H; subst.
  split; [reflexivity | now apply in_i32_spec].
Qed.

Lemma bind_Ret_inv {A B} (m : outcome A) (k : A -> outcome B) (b : B) :
  bind m k = Ret b -> exists a, m = Ret a /\ k a = Ret b.
Proof. destruct m; simpl; intro H; [eauto | discriminate | discriminate]. Qed.

Lemma pop_back_cons {A} (a d : A) (l : list A) :
  pop_back (a :: l) = Some (removelast (a :: l), last (a :: l) d).
Proof.
  revert a. induction l as [|b l IH]; intro a; [reflexivity|].
  change (pop_back (a :: b :: l)) with
    (match pop_back (b :: l) with
     | Some (l'', z) => Some (a :: l'', z) | None => None end).
  rewrite IH. reflexivity.
Qed.

(** What a call of [Snake::update] that returns has done. *)
Lemma Snake_update_Ret (s : Snake) (rows cols : Z) (b : bool) (s' : Snake) :
  Snake_update s rows cols = Ret (b, s') ->
  exists h t, parts s = h :: t /\
  ((b = false /\ s' = s) \/
   (b = true /\ exists nh,
      SnakePiece_is_collide_edge h (dir s) rows cols = Ret false /\
      SnakePiece_update h (dir s) = Ret nh /\
      Snake_is_collide s (piece_y nh) (piece_x nh) = false /\
      (just_eaten s = true ->
         s' = mkSnake (nh :: parts s) (dir s) false (score s' ) (speed s') /\
         add32 (score s) 1 = Ret (score s') /\
         exists q, div32 (speed s) 10 = Ret q /\ sub32 (speed s) q = Ret (speed s')) /\
      (just_eaten s = false -> s' = set_parts s (removelast (nh :: parts s))))).
Proof.
  unfold Snake_update. destruct (parts s) as [|h t] eqn:Hp; [discriminate|].
  intro H. exists h, t. split; [reflexivity|].
  apply bind_Ret_inv in H as [edge [He H]].
  destruct edge; [inversion H; subst; now left|].
  apply bind_Ret_inv in H as [nh [Hn H]].
  destruct (Snake_is_collide s (piece_y nh) (piece_x nh)) eqn:Hc;
    [inversion H; subst; now left|].
  right. unfold set_parts in H; cbn [parts just_eaten dir score speed] in H.
  destruct (just_eaten s) eqn:Hj.
  - apply bind_Ret_inv in H as [sc [Hsc H]].
    apply bind_Ret_inv in H as [q [Hq H]].
    apply bind_Ret_inv in H as [sp [Hsp H]].
    inversion H; subst. split; [reflexivity|].
    exists nh. split; [exact He|]. split; [exact Hn|]. split; [exact Hc|].
    split; [|discriminate]. intros _. rewrite ?Hp.
    split; [reflexivity|]. split; [exact Hsc | exists q; split; assumption].
  - rewrite (pop_back_cons _ nh) in H. inversion H; subst. split; [reflexivity|].
    exists nh. split; [exact He|]. split; [exact Hn|]. split; [exact Hc|].
    split; [discriminate|]. intros _. unfold set_parts. now rewrite ?Hp, Hj.
Qed.

Lemma Snake_update_false (s : Snake) (rows cols : Z) (s' : Snake) :
  Snake_update s rows cols = Ret (false, s') -> s' = s.
Proof.
  intro H. apply Snake_update_Ret in H as [h [t [_ [[_ E] | [E _]]]]];
    [exact E | discriminate].
Qed.

Lemma length_removelast_cons {A} (a : A) (l : list A) :
  List.length (removelast (a :: l)) = List.length l.
Proof.
  revert a. induction l as [|b l IH]; intro a; [reflexivity|].
  change (removelast (a :: b :: l)) with (a :: removelast (b :: l)).
  cbn [Datatypes.length]. now rewrite IH.
Qed.

(** The edge test returns (does not panic) when [rows - 1] and [cols - 1]
    are [i32] values. *)
Lemma edge_Ret (h : SnakePiece) (d : Direction) (rows cols : Z) :
  i32_min < rows <= i32_max -> i32_min < cols <= i32_max ->
  exists b, SnakePiece_is_collide_edge h d rows cols = Ret b.
Proof.
  intros Hr Hc. unfold SnakePiece_is_collide_edge, sub32.
  destruct d; try rewrite checked_in by (unfold i32_min, i32_max in *; lia);
    simpl; eauto.
Qed.

Lemma piece_wf_spec (p : SnakePiece) :
  piece_wf p = true ->
  i32_min <= piece_y p <= i32_max /\ i32_min <= piece_x p <= i32_max.
Proof.
  unfold piece_wf. rewrite andb_true_iff, !in_i32_spec. tauto.
Qed.

(** The direction [set_direction] refuses to take from a heading. *)
Definition opposite (d : Direction) : Direction :=
  match d with Down => Up | Up => Down | Left => Right | Right => Left end.

(** ** Snake::update at the edge *)

(** Claim C1: when the head is on the boundary row or column in the
    direction of travel (row 0 heading Up, row [rows - 1] heading Down,
    column 0 heading Left, column [cols - 1] heading Right), [update]
    returns [false] and the snake, its segments included, is unchanged. *)
Theorem update_blocked_at_edge (s : Snake) (rows cols : Z)
    (h : SnakePiece) (t : list SnakePiece) :
  parts s = h :: t ->
  piece_wf h = true ->
  (dir s = Up /\ piece_y h = 0) \/ (dir s = Down /\ piece_y h = rows - 1) \/
  (dir s = Left /\ piece_x h = 0) \/ (dir s = Right /\ piece_x h = cols - 1) ->
  Snake_update s rows cols = Ret (false, s) /\ parts s = h :: t.
Proof.
  intros Hp Hwf Hcase. split; [|exact Hp].
  apply piece_wf_spec in Hwf as [Hy Hx].
  assert (E : SnakePiece_is_collide_edge h (dir s) rows cols = Ret true).
  { destruct Hcase as [[Hd Hh] | [[Hd Hh] | [[Hd Hh] | [Hd Hh]]]];
      rewrite Hd; unfold SnakePiece_is_collide_edge, sub32;
      try (rewrite checked_in by lia); simpl; rewrite Hh, Z.leb_refl; reflexivity. }
  unfold Snake_update. rewrite Hp, E. reflexivity.
Qed.

Lemma update_blocked_at_edge_witness :
  parts (mkSnake [mkPiece 4 9; mkPiece 4 8] Right false 0 500) = [mkPiece 4 9; mkPiece 4 8] /\
  Snake_update (mkSnake [mkPiece 4 9; mkPiece 4 8] Right false 0 500) 10 10
  = Ret (false, mkSnake [mkPiece 4 9; mkPiece 4 8] Right false 0 500).
Proof.
  split; [reflexivity|].
  apply (update_blocked_at_edge _ 10 10 (mkPiece 4 9) [mkPiece 4 8]);
    [reflexivity | reflexivity | right; right; right; split; reflexivity].
Defined.

(** ** Snake::set_direction *)

(** Claim C3: [set_direction d] turns the heading to [d] exactly when [d]
    is not the opposite of the current heading, and otherwise leaves it as
    it is; nothing else of the snake changes. *)
Theorem set_direction_spec (s : Snake) (d : Direction) :
  (dir (Snake_set_direction s d) = d <-> d <> opposite (dir s)) /\
  (d = opposite (dir s) -> dir (Snake_set_direction s d) = dir s) /\
  parts (Snake_set_direction s d) = parts s /\
  just_eaten (Snake_set_direction s d) = just_eaten s /\
  score (Snake_set_direction s d) = score s /\
  speed (Snake_set_direction s d) = speed s.
Proof.
  destruct s as [ps h je sc sp].
  destruct d, h; cbn; repeat split; intros; try discriminate; try congruence.
Qed.

(** ** Snake::update on a collision with the body *)

(** Claim C4: when the head translated one cell along the heading lands on
    a segment of the snake, [update] returns [false].  [rows] and [cols] are
    the window's dimensions, [i32] values that are not negative. *)
Theorem update_self_collision (s : Snake) (rows cols : Z)
    (h : SnakePiece) (t : list SnakePiece) (nh : SnakePiece) :
  0 <= rows <= i32_max -> 0 <= cols <= i32_max ->
  parts s = h :: t ->
  SnakePiece_update h (dir s) = Ret nh ->
  Snake_is_collide s (piece_y nh) (piece_x nh) = true ->
  Snake_update s rows cols = Ret (false, s).
Proof.
  intros Hr Hc Hp Hn Hcol.
  destruct (edge_Ret h (dir s) rows cols) as [b Hb];
    [unfold i32_min in *; lia | unfold i32_min in *; lia |].
  unfold Snake_update. rewrite Hp, Hb. simpl.
  destruct b; [reflexivity|].
  rewrite Hn. simpl. rewrite Hcol. reflexivity.
Qed.

Lemma update_self_collision_witness :
  Snake_update (mkSnake [mkPiece 5 5; mkPiece 5 6; mkPiece 4 6; mkPiece 4 5] Right false 0 500) 10 10
  = Ret (false, mkSnake [mkPiece 5 5; mkPiece 5 6; mkPiece 4 6; mkPiece 4 5] Right false 0 500).
Proof.
  apply (update_self_collision _ 10 10 (mkPiece 5 5) [mkPiece 5 6; mkPiece 4 6; mkPiece 4 5]
           (mkPiece 5 6));
    [unfold i32_max; lia | unfold i32_max; lia | reflexivity | reflexivity | reflexivity].
Defined.

(** ** Snake::update when it fails *)

(** Claim C9: whenever [update] returns [false], by the edge test or by the
    body test, the whole snake is as before: segments, heading, score,
    speed and the just-eaten flag. *)
Theorem update_failure_atomic (s : Snake) (rows cols : Z) (s' : Snake) :
  Snake_update s rows cols = Ret (false, s') ->
  s' = s /\ parts s' = parts s /\ dir s' = dir s /\ score s' = score s /\
  speed s' = speed s /\ just_eaten s' = just_eaten s.
Proof.
  intro H. apply Snake_update_false in H. subst s'. repeat split.
Qed.

Lemma update_failure_atomic_witness :
  Snake_update (mkSnake [mkPiece 0 5; mkPiece 1 5] Up true 3 400) 10 10
    = Ret (false, mkSnake [mkPiece 0 5; mkPiece 1 5] Up true 3 400) /\
  mkSnake [mkPiece 0 5; mkPiece 1 5] Up true 3 400
    = mkSnake [mkPiece 0 5; mkPiece 1 5] Up true 3 400.
Proof.
  split; [reflexivity|].
  apply (update_failure_atomic _ 10 10 _). reflexivity.
Defined.

(** ** Snake::update when it succeeds *)

(** Claim C7: when the just-eaten flag is false, a successful [update]
    prepends the translated head and removes the tail segment, so the
    number of segments is unchanged. *)
Theorem update_no_growth (s : Snake) (rows cols : Z) (s' : Snake) :
  just_eaten s = false ->
  Snake_update s rows cols = Ret (true, s') ->
  List.length (parts s') = List.length (parts s) /\
  exists h t nh, parts s = h :: t /\ SnakePiece_update h (dir s) = Ret nh /\
    parts s' = nh :: removelast (h :: t).
Proof.
  intros Hj H. apply Snake_update_Ret in H
    as [h [t [Hp [[E _] | [_ [nh [_ [Hn [_ [_ Hno]]]]]]]]]]; [discriminate|].
  specialize (Hno Hj). subst s'. cbn [parts set_parts]. rewrite Hp.
  split.
  - change (removelast (nh :: h :: t)) with (nh :: removelast (h :: t)).
    cbn [Datatypes.length]. now rewrite length_removelast_cons.
  - exists h, t, nh. repeat split; auto.
Qed.

Lemma update_no_growth_witness :
  exists s', Snake_update (mkSnake [mkPiece 5 5; mkPiece 5 4] Right false 0 500) 10 10
               = Ret (true, s') /\ List.length (parts s') = 2%nat.
Proof.
  exists (mkSnake [mkPiece 5 6; mkPiece 5 5] Right false 0 500).
  split; [reflexivity|].
  apply (proj1 (update_no_growth (mkSnake [mkPiece 5 5; mkPiece 5 4] Right false 0 500)
                  10 10 _ eq_refl eq_refl)).
Defined.

(** Claim C2 (amended): when the just-eaten flag is true, a successful
    [update] prepends the translated head and keeps the tail (one segment
    more), adds exactly 1 to the score, takes [speed / 10] off the speed
    with Rust's division, which rounds toward zero ([Z.quot]; the floor
    when the speed is not negative), and clears the flag. *)
Theorem update_growth (s : Snake) (rows cols : Z) (s' : Snake) :
  just_eaten s = true ->
  Snake_update s rows cols = Ret (true, s') ->
  List.length (parts s') = S (List.length (parts s)) /\
  (exists nh, parts s' = nh :: parts s) /\
  score s' = score s + 1 /\
  speed s' = speed s - Z.quot (speed s) 10 /\
  (0 <= speed s -> speed s' = speed s - speed s / 10) /\
  just_eaten s' = false.
Proof.
  intros Hj H. apply Snake_update_Ret in H
    as [h [t [Hp [[E _] | [_ [nh [_ [Hn [_ [Hyes _]]]]]]]]]]; [discriminate|].
  destruct (Hyes Hj) as [Es [Hsc [q [Hq Hsp]]]].
  unfold add32, sub32, div32 in *. simpl in Hq.
  apply checked_Ret in Hsc as [Hsc _]. apply checked_Ret in Hq as [Hq _].
  apply checked_Ret in Hsp as [Hsp _]. subst q.
  rewrite Es. cbn [parts score speed just_eaten].
  split; [reflexivity|]. split; [eauto|].
  split; [exact Hsc|]. split; [exact Hsp|]. split; [|reflexivity].
  intro Hnn. rewrite Hsp, Z.quot_div_nonneg by lia. reflexivity.
Qed.

Lemma update_growth_witness :
  exists s', Snake_update (mkSnake [mkPiece 5 6; mkPiece 5 5] Right true 0 500) 10 10
               = Ret (true, s') /\ score s' = 1 /\ speed s' = 450.
Proof.
  exists (mkSnake [mkPiece 5 7; mkPiece 5 6; mkPiece 5 5] Right false 1 450).
  split; [reflexivity|].
  destruct (update_growth (mkSnake [mkPiece 5 6; mkPiece 5 5] Right true 0 500) 10 10
              (mkSnake [mkPiece 5 7; mkPiece 5 6; mkPiece 5 5] Right false 1 450)
              eq_refl eq_refl) as [_ [_ [Hsc [Hsp _]]]].
  split; [exact Hsc | exact Hsp].
Defined.

(** Claim C2, as written, with the speed decreased by the floor of
    [old_speed / 10]: false for a snake whose speed is [-5], where Rust's
    [-5 / 10] is [0] and the floor of [-5 / 10] is [-1]. *)
Lemma update_growth_floor_counterexample :
  ~ (forall (s : Snake) (rows cols : Z) (s' : Snake),
       just_eaten s = true ->
       Snake_update s rows cols = Ret (true, s') ->
       List.length (parts s') = S (List.length (parts s)) /\
       score s' = score s + 1 /\
       speed s' = speed s - Z.div (speed s) 10 /\
       just_eaten s' = false).
Proof.
  intro H.
  destruct (H (mkSnake [mkPiece 5 5; mkPiece 5 4] Right true 0 (-5)) 10 10
              (mkSnake [mkPiece 5 6; mkPiece 5 5; mkPiece 5 4] Right false 1 (-5))
              eq_refl eq_refl) as [_ [_ [Hsp _]]].
  simpl in Hsp. discriminate.
Qed.

(** ** Food::update *)

Lemma gen_range_Ret (n d v : Z) : gen_range 0 n d = Ret v -> 0 <= v < n.
Proof.
  unfold gen_range. destruct (n <=? 0) eqn:E; intro H; [discriminate|].
  inversion H; subst. apply Z.leb_gt in E. rewrite Z.sub_0_r.
  pose proof (Z.mod_pos_bound d n E). lia.
Qed.

(** The cell the relocation loop stops at is in the grid and off the snake. *)
Lemma relocate_Ret (rows cols : Z) (sn : Snake) (draws : list Z) (y x : Z) :
  relocate rows cols sn draws = Ret (y, x) ->
  0 <= y < rows /\ 0 <= x < cols /\ Snake_is_collide sn y x = false.
Proof.
  remember (List.length draws) as n eqn:Hn.
  revert draws Hn. induction n as [n IH] using lt_wf_ind. intros draws Hn H.
  destruct draws as [|d1 [|d2 r2]]; simpl in H; [discriminate| |].
  - apply bind_Ret_inv in H as [v [_ H]]. discriminate.
  - apply bind_Ret_inv in H as [vy [Hy H]].
    apply bind_Ret_inv in H as [vx [Hx H]].
    destruct (Snake_is_collide sn vy vx) eqn:Hc; simpl in H.
    + apply (IH (List.length r2)) in H; [exact H | simpl in Hn; lia | reflexivity].
    + inversion H; subst.
      apply gen_range_Ret in Hy, Hx. auto.
Qed.

(** Claim C5: [Food::update] reports [true] exactly when the snake's head
    is on the food; when the head is elsewhere it returns [false] and leaves
    the food alone; when it returns [true] (the sampling loop stopped) the
    food is moved to a cell of [[0, rows) x [0, cols)] that no segment of
    the snake occupies. *)
Theorem food_update_spec (f : Food) (rows cols : Z) (sn : Snake)
    (h : SnakePiece) (t : list SnakePiece) (draws : list Z) :
  parts sn = h :: t ->
  ((food_y f, food_x f) <> (piece_y h, piece_x h) ->
     Food_update f rows cols sn draws = Ret (false, f)) /\
  (forall (b : bool) (f' : Food), Food_update f rows cols sn draws = Ret (b, f') ->
     (b = true <-> (food_y f, food_x f) = (piece_y h, piece_x h)) /\
     (b = true ->
        0 <= food_y f' < rows /\ 0 <= food_x f' < cols /\
        Snake_is_collide sn (food_y f') (food_x f') = false)).
Proof.
  intro Hp. unfold Food_update. rewrite Hp. unfold Food_is_collide.
  split.
  - intro Hne. destruct ((food_y f =? piece_y h) && (food_x f =? piece_x h)) eqn:E;
      [|reflexivity].
    apply andb_true_iff in E as [E1 E2]. apply Z.eqb_eq in E1, E2.
    exfalso. apply Hne. now rewrite E1, E2.
  - intros b f' H.
    destruct ((food_y f =? piece_y h) && (food_x f =? piece_x h)) eqn:E.
    + apply bind_Ret_inv in H as [[y x] [Hr H]]. inversion H; subst.
      apply andb_true_iff in E as [E1 E2]. apply Z.eqb_eq in E1, E2.
      split; [split; [intros _; now rewrite E1, E2 | reflexivity]|].
      intros _. apply relocate_Ret in Hr. exact Hr.
    + inversion H; subst. split; [|discriminate].
      split; [discriminate|]. intro Heq. inversion Heq as [[E1 E2]].
      rewrite E1, E2, !Z.eqb_refl in E. discriminate.
Qed.

Lemma food_update_spec_witness :
  Food_update (mkFood 5 6 ".") 10 10
      (mkSnake [mkPiece 5 6; mkPiece 5 5] Right false 0 500) [5; 6; 2; 3]
    = Ret (true, mkFood 2 3 ".") /\
  0 <= 2 < 10 /\ 0 <= 3 < 10 /\
  Snake_is_collide (mkSnake [mkPiece 5 6; mkPiece 5 5] Right false 0 500) 2 3 = false.
Proof.
  split; [reflexivity|].
  apply (proj2 (food_update_spec (mkFood 5 6 ".") 10 10
                  (mkSnake [mkPiece 5 6; mkPiece 5 5] Right false 0 500)
                  (mkPiece 5 6) [mkPiece 5 5] [5; 6; 2; 3] eq_refl)
           true (mkFood 2 3 ".") eq_refl).
  reflexivity.
Defined.

(** ** Game::update *)

Lemma set_snake_same (g : Game) : set_snake g (snake g) = g.
Proof. now destruct g. Qed.

(** Claim C6: [Game::update] returns [false] exactly when [Snake::update]
    fails, and then the game, food and just-eaten flag included, is as
    before ([Food::update] is not run, whatever the generator holds); when
    [Snake::update] succeeds, [Game::update] runs [Food::update] on the moved
    snake and only sets the snake's just-eaten flag from its result, so the
    snake's score, speed and length are those [Snake::update] produced. *)
Theorem game_update_spec (g : Game) (draws : list Z) :
  (forall s1, Snake_update (snake g) (rows g) (cols g) = Ret (false, s1) ->
     Game_update g draws = Ret (false, g)) /\
  (forall s1, Snake_update (snake g) (rows g) (cols g) = Ret (true, s1) ->
     Game_update g draws =
       match Food_update (food g) (rows g) (cols g) s1 draws with
       | Ret (eaten, f) => Ret (true, mkGame (rows g) (cols g) (set_just_eaten s1 eaten) f)
       | Panic m => Panic m
       | Exhausted => Exhausted
       end) /\
  (forall g', Game_update g draws = Ret (false, g') ->
     g' = g /\ exists s1, Snake_update (snake g) (rows g) (cols g) = Ret (false, s1)).
Proof.
  split; [|split].
  - intros s1 H. unfold Game_update. rewrite H. simpl.
    apply Snake_update_false in H. subst s1. now rewrite set_snake_same.
  - intros s1 H. unfold Game_update. rewrite H. simpl.
    destruct (Food_update (food g) (rows g) (cols g) s1 draws) as [[eaten f]| |];
      reflexivity.
  - intros g' H. unfold Game_update in H.
    destruct (Snake_update (snake g) (rows g) (cols g)) as [[ok s1]| |] eqn:E;
      simpl in H; try discriminate.
    destruct ok; simpl in H.
    + apply bind_Ret_inv in H as [[eaten f] [_ H]]. discriminate.
    + inversion H; subst. apply Snake_update_false in E as E'. subst s1.
      split; [apply set_snake_same | eauto].
Qed.

(** ** The initial game *)

(** The game [main] builds for a window of [max_y] rows and [max_x]
    columns: the snake's two cells in the middle heading [Right], score 0,
    speed 500, and the food at row [max_y / 2 + 5] and at column
    [max_y / 2 + 5] as well (the column is computed from [get_max_y]). *)
Lemma init_game_shape (max_y max_x : Z) :
  0 <= max_y <= i32_max -> 0 <= max_x <= i32_max ->
  init_game max_y max_x =
    Ret (mkGame max_y max_x
           (mkSnake [mkPiece (max_y / 2) (max_x / 2); mkPiece (max_y / 2) (max_x / 2 - 1)]
              Right false 0 500)
           (mkFood (max_y / 2 + 5) (max_y / 2 + 5) ".")).
Proof.
  intros Hy Hx. unfold init_game, div32, add32, sub32. simpl.
  rewrite !Z.quot_div_nonneg by lia.
  unfold i32_max in *.
  rewrite (checked_in (max_y / 2)) by (unfold i32_min, i32_max; Z.div_mod_to_equations; lia). simpl.
  rewrite (checked_in (max_x / 2)) by (unfold i32_min, i32_max; Z.div_mod_to_equations; lia). simpl.
  rewrite (checked_in (max_x / 2 - 1)) by (unfold i32_min, i32_max; Z.div_mod_to_equations; lia). simpl.
  rewrite (checked_in (max_y / 2 + 5)) by (unfold i32_min, i32_max; Z.div_mod_to_equations; lia). simpl.
  reflexivity.
Qed.

(** Claim C8: the food is not at a fixed offset from the centre of the
    grid.  In a 24 x 80 window it starts at (17, 17), five rows below the
    centre (12, 40) but 23 columns left of it; its column follows the number
    of rows, not of columns, so no constant column offset from [cols / 2]
    fits both a 24 x 80 and a 24 x 40 window. *)
Theorem init_food_column_from_rows :
  init_game 24 80 =
    Ret (mkGame 24 80 (mkSnake [mkPiece 12 40; mkPiece 12 39] Right false 0 500)
           (mkFood 17 17 ".")) /\
  ~ (exists dy dx, forall (max_y max_x : Z) (g : Game),
       init_game max_y max_x = Ret g ->
       food_y (food g) = max_y / 2 + dy /\ food_x (food g) = max_x / 2 + dx).
Proof.
  split; [reflexivity|].
  intros [dy [dx H]].
  destruct (H 24 80 _ eq_refl) as [_ H1].
  destruct (H 24 40 _ eq_refl) as [_ H2].
  cbv [food food_x] in H1, H2. change (80 / 2) with 40 in H1. change (40 / 2) with 20 in H2. lia.
Qed.

(** ** The speed *)

Lemma Snake_update_speed (s : Snake) (rows cols : Z) (b : bool) (s' : Snake) :
  Snake_update s rows cols = Ret (b, s') ->
  speed s' = speed s \/ speed s' = speed s - Z.quot (speed s) 10.
Proof.
  intro H. apply Snake_update_Ret in H
    as [h [t [_ [[_ E] | [_ [nh [_ [_ [_ [Hyes Hno]]]]]]]]]]; [subst; now left|].
  destruct (just_eaten s) eqn:Hj.
  - destruct (Hyes eq_refl) as [_ [_ [q [Hq Hsp]]]].
    unfold div32, sub32 in *. simpl in Hq.
    apply checked_Ret in Hq as [Hq _]. apply checked_Ret in Hsp as [Hsp _].
    subst q. now right.
  - rewrite (Hno eq_refl). now left.
Qed.

Lemma speed_decrement_bound (sp : Z) : 1 <= sp -> 1 <= sp - Z.quot sp 10 <= sp.
Proof.
  intro H. rewrite Z.quot_div_nonneg by lia. Z.div_mod_to_equations. lia.
Qed.

Lemma init_game_speed (max_y max_x : Z) (g : Game) :
  init_game max_y max_x = Ret g -> speed (snake g) = 500.
Proof.
  unfold init_game. intro H.
  repeat (apply bind_Ret_inv in H as [? [_ H]]).
  inversion H. reflexivity.
Qed.

Lemma Game_input_speed (g : Game) (c : ascii) :
  speed (snake (Game_input g c)) = speed (snake g).
Proof. unfold Game_input. now destruct (Direction_input c). Qed.

Lemma Game_update_true (g : Game) (draws : list Z) (g' : Game) :
  Game_update g draws = Ret (true, g') ->
  exists s1 eaten, Snake_update (snake g) (rows g) (cols g) = Ret (true, s1) /\
    snake g' = set_just_eaten s1 eaten.
Proof.
  unfold Game_update. intro H.
  destruct (Snake_update (snake g) (rows g) (cols g)) as [[ok s1]| |] eqn:E;
    simpl in H; try discriminate.
  destruct ok; simpl in H; [|discriminate].
  apply bind_Ret_inv in H as [[eaten f] [_ H]]. inversion H; subst.
  now exists s1, eaten.
Qed.

Lemma reachable_speed (max_y max_x : Z) (g : Game) :
  reachable max_y max_x g -> 1 <= speed (snake g) <= 500.
Proof.
  induction 1 as [g Hi | g c _ IH | g draws g' _ IH Hu].
  - rewrite (init_game_speed _ _ _ Hi). lia.
  - now rewrite Game_input_speed.
  - apply Game_update_true in Hu as [s1 [eaten [Hs Hg']]].
    rewrite Hg'. cbn [set_just_eaten speed].
    apply Snake_update_speed in Hs as [Hs | Hs]; rewrite Hs; [exact IH|].
    pose proof (speed_decrement_bound (speed (snake g)) (proj1 IH)). lia.
Qed.

(** Claim C10: an [update] of a snake whose speed is at least 1 leaves a
    speed of at least 1 (and at most the old one), since the only change is
    [speed -= speed / 10]; hence in every state the main loop reaches from
    the initial speed 500, the speed, which is the input timeout, lies in
    [[1, 500]]. *)
Theorem speed_stays_positive (s : Snake) (rows cols : Z) (b : bool) (s' : Snake) :
  1 <= speed s ->
  Snake_update s rows cols = Ret (b, s') ->
  1 <= speed s' <= speed s /\
  (forall (max_y max_x : Z) (g : Game),
     reachable max_y max_x g -> 1 <= speed (snake g) <= 500).
Proof.
  intros Hpos H. split; [|exact reachable_speed].
  apply Snake_update_speed in H as [H | H]; rewrite H; [lia|].
  now apply speed_decrement_bound.
Qed.

Lemma speed_stays_positive_witness :
  exists s', Snake_update (mkSnake [mkPiece 5 6; mkPiece 5 5] Right true 0 5) 10 10
               = Ret (true, s') /\ 1 <= speed s' <= 5.
Proof.
  exists (mkSnake [mkPiece 5 7; mkPiece 5 6; mkPiece 5 5] Right false 1 5).
  split; [reflexivity|].
  apply (proj1 (speed_stays_positive (mkSnake [mkPiece 5 6; mkPiece 5 5] Right true 0 5)
                  10 10 true _ ltac:(cbn; lia) eq_refl)).
Defined.

(** ** Invariants of the states the main loop reaches *)

Lemma piece_eta (p : SnakePiece) : mkPiece (piece_y p) (piece_x p) = p.
Proof. now destruct p. Qed.

Lemma Snake_is_collide_false (s : Snake) (y x : Z) :
  Snake_is_collide s y x = false <-> ~ In (mkPiece y x) (parts s).
Proof.
  unfold Snake_is_collide. split.
  - intros H Hin. assert (E : existsb (fun p => (y =? piece_y p) && (x =? piece_x p))
                                 (parts s) = true).
    { apply existsb_exists. exists (mkPiece y x). simpl. now rewrite !Z.eqb_refl. }
    congruence.
  - intro H. destruct (existsb _ (parts s)) eqn:E; [|reflexivity].
    exfalso. apply existsb_exists in E as [p [Hp E]].
    apply andb_true_iff in E as [E1 E2]. apply Z.eqb_eq in E1, E2. subst.
    apply H. now rewrite piece_eta.
Qed.

Lemma in_removelast {A} (l : list A) (x : A) : In x (removelast l) -> In x l.
Proof.
  induction l as [|a l IH]; [easy|].
  destruct l as [|b l]; [easy|].
  change (removelast (a :: b :: l)) with (a :: removelast (b :: l)).
  intros [E | H]; [now left | right; auto].
Qed.

Lemma NoDup_removelast {A} (l : list A) : NoDup l -> NoDup (removelast l).
Proof.
  induction l as [|a l IH]; [easy|]. intro H.
  destruct l as [|b l]; [constructor|].
  change (removelast (a :: b :: l)) with (a :: removelast (b :: l)).
  inversion H as [|? ? Hn Hd]; subst. constructor; [|auto].
  intro Hin. apply Hn. now apply in_removelast.
Qed.

(** A successful [Snake::update]: the translated head, off the body, is
    prepended; the tail is kept and the score raised when the flag was set,
    and the tail is dropped otherwise. *)
Lemma Snake_update_true (s : Snake) (rows cols : Z) (s' : Snake) :
  Snake_update s rows cols = Ret (true, s') ->
  exists h t nh, parts s = h :: t /\
    SnakePiece_is_collide_edge h (dir s) rows cols = Ret false /\
    SnakePiece_update h (dir s) = Ret nh /\ ~ In nh (parts s) /\
    ((just_eaten s = true /\ parts s' = nh :: parts s /\ score s' = score s + 1) \/
     (just_eaten s = false /\ parts s' = nh :: removelast (parts s) /\ score s' = score s)).
Proof.
  intro H. apply Snake_update_Ret in H
    as [h [t [Hp [[E _] | [_ [nh [He [Hn [Hc [Hyes Hno]]]]]]]]]]; [discriminate|].
  exists h, t, nh. split; [exact Hp|]. split; [exact He|]. split; [exact Hn|].
  split; [apply Snake_is_collide_false in Hc; now rewrite piece_eta in Hc|].
  destruct (just_eaten s) eqn:Hj.
  - left. destruct (Hyes eq_refl) as [Es [Hsc _]]. unfold add32 in Hsc.
    apply checked_Ret in Hsc as [Hsc _]. rewrite Es. cbn [parts score]. now repeat split.
  - right. rewrite (Hno eq_refl). cbn [parts score set_parts]. rewrite Hp. now repeat split.
Qed.

Lemma Game_update_true_full (g : Game) (draws : list Z) (g' : Game) :
  Game_update g draws = Ret (true, g') ->
  exists s1 eaten, Snake_update (snake g) (rows g) (cols g) = Ret (true, s1) /\
    Food_update (food g) (rows g) (cols g) s1 draws = Ret (eaten, food g') /\
    g' = mkGame (rows g) (cols g) (set_just_eaten s1 eaten) (food g').
Proof.
  unfold Game_update. intro H.
  destruct (Snake_update (snake g) (rows g) (cols g)) as [[ok s1]| |] eqn:E;
    simpl in H; try discriminate.
  destruct ok; simpl in H; [|discriminate].
  apply bind_Ret_inv in H as [[eaten f] [Hf H]]. inversion H; subst.
  exists s1, eaten. auto.
Qed.

Lemma Game_update_false (g : Game) (draws : list Z) (g' : Game) :
  Game_update g draws = Ret (false, g') -> g' = g.
Proof.
  unfold Game_update. intro H.
  destruct (Snake_update (snake g) (rows g) (cols g)) as [[ok s1]| |] eqn:E;
    simpl in H; try discriminate.
  destruct ok; simpl in H.
  - apply bind_Ret_inv in H as [[eaten f] [_ H]]. discriminate.
  - inversion H; subst. apply Snake_update_false in E. subst. apply set_snake_same.
Qed.

(** What [Food::update] did to the food, when it returned. *)
Lemma Food_update_Ret (f : Food) (rows cols : Z) (sn : Snake) (draws : list Z)
    (eaten : bool) (f' : Food) :
  Food_update f rows cols sn draws = Ret (eaten, f') ->
  exists h t, parts sn = h :: t /\ food_ch f' = food_ch f /\
    ((eaten = true /\ ~ In (mkPiece (food_y f') (food_x f')) (parts sn) /\
        0 <= food_y f' < rows /\ 0 <= food_x f' < cols) \/
     (eaten = false /\ f' = f /\ mkPiece (food_y f) (food_x f) <> h)).
Proof.
  unfold Food_update, Food_is_collide. destruct (parts sn) as [|h t] eqn:Hp;
    [discriminate|].
  intro H. exists h, t. split; [reflexivity|].
  destruct ((food_y f =? piece_y h) && (food_x f =? piece_x h)) eqn:E.
  - apply bind_Ret_inv in H as [[y x] [Hr H]]. inversion H; subst.
    apply relocate_Ret in Hr as [Hy [Hx Hc]]. split; [reflexivity|].
    left. split; [reflexivity|]. split; [|auto].
    apply Snake_is_collide_false in Hc. now rewrite Hp in Hc.
  - inversion H; subst. split; [reflexivity|]. right. split; [reflexivity|].
    split; [reflexivity|]. intro Heq. rewrite <- Heq in E. simpl in E.
    now rewrite !Z.eqb_refl in E.
Qed.

Lemma init_game_Ret (max_y max_x : Z) (g : Game) :
  init_game max_y max_x = Ret g ->
  exists hy hx, div32 max_y 2 = Ret hy /\ div32 max_x 2 = Ret hx /\
    g = mkGame max_y max_x (mkSnake [mkPiece hy hx; mkPiece hy (hx - 1)] Right false 0 500)
          (mkFood (hy + 5) (hy + 5) ".").
Proof.
  unfold init_game. intro H.
  apply bind_Ret_inv in H as [hy [Hy H]].
  apply bind_Ret_inv in H as [hx [Hx H]].
  apply bind_Ret_inv in H as [hx1 [H1 H]].
  apply bind_Ret_inv in H as [fy [Hfy H]].
  apply bind_Ret_inv in H as [fx [Hfx H]].
  unfold sub32, add32 in *.
  apply checked_Ret in H1 as [-> _]. apply checked_Ret in Hfy as [-> _].
  apply checked_Ret in Hfx as [-> _].
  inversion H; subst. exists hy, hx. now repeat split.
Qed.

Lemma Game_input_fields (g : Game) (c : ascii) :
  rows (Game_input g c) = rows g /\ cols (Game_input g c) = cols g /\
  food (Game_input g c) = food g /\ parts (snake (Game_input g c)) = parts (snake g) /\
  score (snake (Game_input g c)) = score (snake g).
Proof. unfold Game_input. destruct (Direction_input c); repeat split. Qed.

(** What every state of the main loop satisfies: the grid is the window's,
    the body has no cell twice, its length is the score plus the two cells
    it starts with, and the food is never under the body. *)
Definition game_inv (max_y max_x : Z) (g : Game) : Prop :=
  rows g = max_y /\ cols g = max_x /\ NoDup (parts (snake g)) /\
  Z.of_nat (List.length (parts (snake g))) = score (snake g) + 2 /\
  0 <= score (snake g) /\
  ~ In (mkPiece (food_y (food g)) (food_x (food g))) (parts (snake g)) /\
  food_ch (food g) = "."%char.

Lemma reachable_inv (max_y max_x : Z) (g : Game) :
  reachable max_y max_x g -> game_inv max_y max_x g.
Proof.
  induction 1 as [g Hi | g c _ IH | g draws g' _ IH Hu].
  - apply init_game_Ret in Hi as [hy [hx [_ [_ ->]]]].
    unfold game_inv; cbn [rows cols snake parts food score food_y food_x food_ch].
    split; [reflexivity|]. split; [reflexivity|].
    split; [constructor; [|constructor; [easy | constructor]]|].
    { intros [E | []]. injection E. lia. }
    split; [reflexivity|]. split; [lia|]. split; [|reflexivity].
    intros [E | [E | []]]; injection E; lia.
  - destruct IH as [Hr [Hc [Hnd [Hlen [Hsc [Hf Hch]]]]]].
    unfold game_inv.
    destruct (Game_input_fields g c) as [-> [-> [-> [-> ->]]]]. auto 7.
  - destruct IH as [Hr [Hc [Hnd [Hlen [Hsc [Hf Hch]]]]]].
    apply Game_update_true_full in Hu as [s1 [eaten [Hs [Hfu ->]]]].
    apply Food_update_Ret in Hfu as [h' [t' [Hp' [Hch' Hfood]]]].
    apply Snake_update_true in Hs as [h [t [nh [Hp [_ [_ [Hni Hcase]]]]]]].
    unfold game_inv; cbn [rows cols snake food set_just_eaten parts score].
    split; [exact Hr|]. split; [exact Hc|].
    destruct Hcase as [[_ [Hps1 Hsc1]] | [_ [Hps1 Hsc1]]];
      rewrite Hps1 in Hp'; injection Hp' as <- _; rewrite Hps1, Hsc1.
    + split; [now constructor|].
      split; [cbn [Datatypes.length]; rewrite Nat2Z.inj_succ; lia|].
      split; [lia|]. split; [|congruence].
      destruct Hfood as [[_ [Hno _]] | [_ [-> Hne]]].
      * now rewrite <- Hps1.
      * intros [E | E]; [congruence | contradiction].
    + rewrite Hp in *.
      split; [constructor; [intro E; apply Hni, in_removelast, E
                           | now apply NoDup_removelast]|].
      split; [cbn [Datatypes.length]; rewrite length_removelast_cons;
              cbn [Datatypes.length] in Hlen; lia|].
      split; [lia|]. split; [|congruence].
      destruct Hfood as [[_ [Hno _]] | [_ [-> Hne]]].
      * now rewrite <- Hps1.
      * intros [E | E]; [congruence | apply Hf, in_removelast, E].
Qed.

(** A step that passed the edge test stays in the grid. *)
Lemma step_in_grid (rows cols : Z) (h : SnakePiece) (d : Direction) (nh : SnakePiece) :
  in_grid rows cols h ->
  SnakePiece_is_collide_edge h d rows cols = Ret false ->
  SnakePiece_update h d = Ret nh -> in_grid rows cols nh.
Proof.
  unfold in_grid, SnakePiece_is_collide_edge, SnakePiece_update, sub32, add32.
  intros [Hy Hx] He Hn.
  destruct d; apply bind_Ret_inv in Hn as [v [Hv Hn]]; inversion Hn; subst;
    apply checked_Ret in Hv as [-> _]; cbn [piece_y piece_x] in *;
    try (apply bind_Ret_inv in He as [r1 [Hr He]]; apply checked_Ret in Hr as [-> _]);
    injection He as He; apply Z.leb_gt in He; lia.
Qed.

Lemma reachable_rows (max_y max_x : Z) (g : Game) :
  reachable max_y max_x g -> rows g = max_y /\ cols g = max_x.
Proof. intro H. apply reachable_inv in H as [Hr [Hc _]]. auto. Qed.

Lemma reachable_in_grid_helper (max_y max_x : Z) (g : Game) :
  1 <= max_y -> 2 <= max_x -> reachable max_y max_x g ->
  Forall (in_grid max_y max_x) (parts (snake g)).
Proof.
  intros Hmy Hmx. induction 1 as [g Hi | g c _ IH | g draws g' Hr IH Hu].
  - apply init_game_Ret in Hi as [hy [hx [Hy [Hx ->]]]].
    unfold div32 in Hy, Hx. simpl in Hy, Hx.
    apply checked_Ret in Hy as [-> _]. apply checked_Ret in Hx as [-> _].
    rewrite !Z.quot_div_nonneg by lia.
    cbn [snake parts]. unfold in_grid; cbn [piece_y piece_x].
    apply Forall_cons; [|apply Forall_cons; [|apply Forall_nil]];
      split; cbn [piece_y piece_x]; Z.div_mod_to_equations; lia.
  - now destruct (Game_input_fields g c) as [_ [_ [_ [-> _]]]].
  - destruct (reachable_rows _ _ _ Hr) as [Er Ec].
    apply Game_update_true_full in Hu as [s1 [eaten [Hs [_ ->]]]].
    cbn [snake set_just_eaten parts].
    apply Snake_update_true in Hs as [h [t [nh [Hp [He [Hn [_ Hcase]]]]]]].
    rewrite Er, Ec in *. rewrite Hp in IH.
    assert (Hnh : in_grid max_y max_x nh).
    { apply (step_in_grid _ _ h (dir (snake g))); auto. now inversion IH. }
    rewrite Forall_forall in IH |- *.
    destruct Hcase as [[_ [-> _]] | [_ [-> _]]]; rewrite ?Hp;
      intros p [E | Hin]; subst; auto.
    apply in_removelast in Hin. auto.
Qed.

Lemma length_flat_map_const {A B} (f : A -> list B) (l : list A) (n : nat) :
  (forall a, List.length (f a) = n) -> List.length (flat_map f l) = (List.length l * n)%nat.
Proof.
  intro Hf. induction l as [|a l IH]; [reflexivity|].
  simpl. rewrite length_app, Hf, IH. reflexivity.
Qed.

Lemma grid_cells_length (max_y max_x : Z) :
  0 <= max_y -> 0 <= max_x ->
  Z.of_nat (List.length (grid_cells max_y max_x)) = max_y * max_x.
Proof.
  intros Hy Hx. unfold grid_cells.
  rewrite (length_flat_map_const _ _ (Z.to_nat max_x)).
  - rewrite !length_map, !length_seq, Nat2Z.inj_mul, !Z2Nat.id; lia.
  - intro y. now rewrite !length_map, length_seq.
Qed.

Lemma in_grid_cells (max_y max_x : Z) (p : SnakePiece) :
  in_grid max_y max_x p -> In p (grid_cells max_y max_x).
Proof.
  intros [Hy Hx]. unfold grid_cells. apply in_flat_map.
  exists (piece_y p). split.
  - apply in_map_iff. exists (Z.to_nat (piece_y p)).
    split; [apply Z2Nat.id; lia | apply in_seq; lia].
  - apply in_map_iff. exists (piece_x p). split; [apply piece_eta|].
    apply in_map_iff. exists (Z.to_nat (piece_x p)).
    split; [apply Z2Nat.id; lia | apply in_seq; lia].
Qed.

Lemma reachable_length_helper (max_y max_x : Z) (g : Game) :
  1 <= max_y -> 2 <= max_x -> reachable max_y max_x g ->
  Z.of_nat (List.length (parts (snake g))) <= max_y * max_x.
Proof.
  intros Hmy Hmx Hr.
  pose proof (reachable_in_grid_helper _ _ _ Hmy Hmx Hr) as Hg.
  apply reachable_inv in Hr as [_ [_ [Hnd _]]].
  rewrite <- grid_cells_length by lia. apply Nat2Z.inj_le.
  apply NoDup_incl_length; [exact Hnd|].
  intros p Hp. apply in_grid_cells. rewrite Forall_forall in Hg. auto.
Qed.

Lemma translate_Ret (rows cols : Z) (h : SnakePiece) (d : Direction) :
  in_grid rows cols h -> rows <= i32_max -> cols <= i32_max ->
  exists nh, SnakePiece_update h d = Ret nh.
Proof.
  unfold in_grid, SnakePiece_update, add32, sub32, i32_max. intros [Hy Hx] Hr Hc.
  destruct d; rewrite checked_in by (unfold i32_min, i32_max; lia); simpl; eauto.
Qed.

Lemma relocate_no_panic (rows cols : Z) (sn : Snake) (draws : list Z) (msg : string) :
  0 < rows -> 0 < cols -> relocate rows cols sn draws <> Panic msg.
Proof.
  intros Hr Hc. remember (List.length draws) as n eqn:Hn.
  revert draws Hn. induction n as [n IH] using lt_wf_ind. intros draws Hn.
  assert (Hg : forall m d, 0 < m -> gen_range 0 m d = Ret (0 + d mod (m - 0))).
  { intros m d Hm. unfold gen_range. destruct (m <=? 0) eqn:E; [lia | reflexivity]. }
  destruct draws as [|d1 [|d2 r2]]; simpl; [discriminate| |].
  - rewrite Hg by exact Hr. discriminate.
  - rewrite Hg by exact Hr. simpl. rewrite Hg by exact Hc. simpl.
    destruct (Snake_is_collide sn _ _); simpl; [|discriminate].
    apply (IH (List.length r2)); [simpl in Hn; lia | reflexivity].
Qed.

(** [Snake::update] returns (does not panic) on a snake whose head is in
    the grid, whose score can still be raised and whose speed is positive. *)
Lemma Snake_update_no_panic (s : Snake) (rows cols : Z) (h : SnakePiece) (t : list SnakePiece) :
  parts s = h :: t -> in_grid rows cols h ->
  1 <= rows <= i32_max -> 1 <= cols <= i32_max ->
  0 <= score s < i32_max -> 1 <= speed s <= i32_max ->
  exists r, Snake_update s rows cols = Ret r.
Proof.
  intros Hp Hh Hr Hc Hsc Hsp.
  destruct (edge_Ret h (dir s) rows cols) as [b Hb];
    [unfold i32_min in *; lia | unfold i32_min in *; lia |].
  unfold Snake_update. rewrite Hp, Hb. cbn [bind].
  destruct b; [eauto|].
  destruct (translate_Ret rows cols h (dir s)) as [nh Hn]; [auto | lia | lia |].
  rewrite Hn. cbn [bind].
  destruct (Snake_is_collide s (piece_y nh) (piece_x nh)); [eauto|].
  unfold set_parts; cbn [parts just_eaten score speed dir].
  destruct (just_eaten s).
  - unfold add32, div32, sub32.
    rewrite (checked_in (score s + 1)) by (unfold i32_min, i32_max in *; lia). simpl.
    rewrite (checked_in (Z.quot (speed s) 10)).
    2:{ rewrite Z.quot_div_nonneg by lia. unfold i32_min, i32_max in *.
        Z.div_mod_to_equations. lia. }
    simpl. rewrite checked_in.
    2:{ rewrite Z.quot_div_nonneg by lia. unfold i32_min, i32_max in *.
        Z.div_mod_to_equations. lia. }
    simpl. eauto.
  - rewrite (pop_back_cons _ nh). eauto.
Qed.

Lemma Game_update_no_panic_helper (g : Game) (draws : list Z) (msg : string)
    (h : SnakePiece) (t : list SnakePiece) :
  parts (snake g) = h :: t -> in_grid (rows g) (cols g) h ->
  1 <= rows g <= i32_max -> 1 <= cols g <= i32_max ->
  0 <= score (snake g) < i32_max -> 1 <= speed (snake g) <= i32_max ->
  Game_update g draws <> Panic msg.
Proof.
  intros Hp Hh Hr Hc Hsc Hsp.
  destruct (Snake_update_no_panic _ _ _ h t Hp Hh Hr Hc Hsc Hsp) as [[ok s1] Hs].
  unfold Game_update. rewrite Hs. simpl.
  destruct ok; simpl; [|discriminate].
  apply Snake_update_true in Hs as [_ [_ [nh [_ [_ [_ [_ Hcase]]]]]]].
  assert (Hps : exists l, parts s1 = nh :: l)
    by (destruct Hcase as [[_ [-> _]] | [_ [-> _]]]; eauto).
  destruct Hps as [l Hps].
  unfold Food_update. rewrite Hps.
  destruct (Food_is_collide _ _ _); simpl; [|discriminate].
  destruct (relocate (rows g) (cols g) s1 draws) as [[y x]| m |] eqn:E; simpl;
    try discriminate.
  intro Em. injection Em as <-. revert E. apply relocate_no_panic; lia.
Qed.

(** ** Properties of the states the main loop reaches *)

(** In every state reached from [main]'s initial game, no cell holds two
    segments of the snake. *)
Theorem reachable_no_self_overlap (max_y max_x : Z) (g : Game) :
  reachable max_y max_x g -> NoDup (parts (snake g)).
Proof. intro H. now apply reachable_inv in H as [_ [_ [Hnd _]]]. Qed.

Lemma reachable_no_self_overlap_witness :
  reachable 24 80 (mkGame 24 80 (mkSnake [mkPiece 12 41; mkPiece 12 40] Right false 0 500)
                     (mkFood 17 17 ".")) /\
  NoDup [mkPiece 12 41; mkPiece 12 40].
Proof.
  assert (H : reachable 24 80 (mkGame 24 80 (mkSnake [mkPiece 12 41; mkPiece 12 40] Right false 0 500)
                     (mkFood 17 17 "."))).
  { apply (reach_update 24 80 (mkGame 24 80 (mkSnake [mkPiece 12 40; mkPiece 12 39] Right false 0 500)
                     (mkFood 17 17 ".")) []); [apply reach_init|]; reflexivity. }
  split; [exact H | exact (reachable_no_self_overlap 24 80 _ H)].
Defined.

(** In every reached state the snake has exactly [score + 2] segments: it
    starts with two and gains one exactly when the score goes up. *)
Theorem reachable_score_length (max_y max_x : Z) (g : Game) :
  reachable max_y max_x g ->
  Z.of_nat (List.length (parts (snake g))) = score (snake g) + 2 /\ 0 <= score (snake g).
Proof. intro H. apply reachable_inv in H as [_ [_ [_ [Hl [Hs _]]]]]. auto. Qed.

Lemma reachable_score_length_witness :
  reachable 24 80 (mkGame 24 80 (mkSnake [mkPiece 12 40; mkPiece 12 39] Right false 0 500)
                     (mkFood 17 17 ".")) /\
  Z.of_nat 2 = 0 + 2 /\ 0 <= 0.
Proof.
  assert (H : reachable 24 80 (mkGame 24 80 (mkSnake [mkPiece 12 40; mkPiece 12 39] Right false 0 500)
                     (mkFood 17 17 ".")))
    by (apply reach_init; reflexivity).
  split; [exact H | exact (reachable_score_length 24 80 _ H)].
Defined.

(** In every reached state the food is on no segment of the snake. *)
Theorem reachable_food_off_snake (max_y max_x : Z) (g : Game) :
  reachable max_y max_x g ->
  Snake_is_collide (snake g) (food_y (food g)) (food_x (food g)) = false.
Proof.
  intro H. apply reachable_inv in H as [_ [_ [_ [_ [_ [Hf _]]]]]].
  now apply Snake_is_collide_false.
Qed.

Lemma reachable_food_off_snake_witness :
  reachable 24 80 (mkGame 24 80 (mkSnake [mkPiece 12 40; mkPiece 12 39] Right false 0 500)
                     (mkFood 17 17 ".")) /\
  Snake_is_collide (mkSnake [mkPiece 12 40; mkPiece 12 39] Right false 0 500) 17 17 = false.
Proof.
  assert (H : reachable 24 80 (mkGame 24 80 (mkSnake [mkPiece 12 40; mkPiece 12 39] Right false 0 500)
                     (mkFood 17 17 ".")))
    by (apply reach_init; reflexivity).
  split; [exact H | exact (reachable_food_off_snake 24 80 _ H)].
Defined.

(** In a window of at least one row and two columns, every segment of the
    snake stays in [[0, rows) x [0, cols)] in every reached state. *)
Theorem reachable_in_bounds (max_y max_x : Z) (g : Game) :
  1 <= max_y -> 2 <= max_x -> reachable max_y max_x g ->
  Forall (in_grid max_y max_x) (parts (snake g)).
Proof. apply reachable_in_grid_helper. Qed.

Lemma reachable_in_bounds_witness :
  reachable 24 80 (mkGame 24 80 (mkSnake [mkPiece 12 40; mkPiece 12 39] Right false 0 500)
                     (mkFood 17 17 ".")) /\
  Forall (in_grid 24 80) [mkPiece 12 40; mkPiece 12 39].
Proof.
  assert (H : reachable 24 80 (mkGame 24 80 (mkSnake [mkPiece 12 40; mkPiece 12 39] Right false 0 500)
                     (mkFood 17 17 ".")))
    by (apply reach_init; reflexivity).
  split; [exact H | exact (reachable_in_bounds 24 80 _ ltac:(lia) ltac:(lia) H)].
Defined.

(** In such a window the snake never has more segments than the grid has
    cells, so the score stays below [rows * cols - 1]. *)
Theorem reachable_score_bound (max_y max_x : Z) (g : Game) :
  1 <= max_y -> 2 <= max_x -> reachable max_y max_x g ->
  Z.of_nat (List.length (parts (snake g))) <= max_y * max_x /\
  score (snake g) <= max_y * max_x - 2.
Proof.
  intros Hy Hx Hr.
  pose proof (reachable_length_helper _ _ _ Hy Hx Hr) as Hl.
  apply reachable_inv in Hr as [_ [_ [_ [Hsl _]]]]. lia.
Qed.

Lemma reachable_score_bound_witness :
  reachable 24 80 (mkGame 24 80 (mkSnake [mkPiece 12 40; mkPiece 12 39] Right false 0 500)
                     (mkFood 17 17 ".")) /\
  Z.of_nat 2 <= 24 * 80 /\ 0 <= 24 * 80 - 2.
Proof.
  assert (H : reachable 24 80 (mkGame 24 80 (mkSnake [mkPiece 12 40; mkPiece 12 39] Right false 0 500)
                     (mkFood 17 17 ".")))
    by (apply reach_init; reflexivity).
  split; [exact H | exact (reachable_score_bound 24 80 _ ltac:(lia) ltac:(lia) H)].
Defined.

(** In a window of at least 1 x 2 cells and at most [2^31] cells, with
    [i32] dimensions, [Game::update] never panics in a reached state: no
    empty body, no [i32] overflow, no empty sampling range.  It returns,
    or is still sampling a free cell for the food. *)
Theorem reachable_update_no_panic (max_y max_x : Z) (g : Game) (draws : list Z) (msg : string) :
  1 <= max_y <= i32_max -> 2 <= max_x <= i32_max -> max_y * max_x <= 2147483648 ->
  reachable max_y max_x g ->
  Game_update g draws <> Panic msg.
Proof.
  intros Hy Hx Hyx Hr.
  pose proof (reachable_length_helper _ _ _ (proj1 Hy) (proj1 Hx) Hr) as Hl.
  pose proof (reachable_in_grid_helper _ _ _ (proj1 Hy) (proj1 Hx) Hr) as Hg.
  pose proof (reachable_speed _ _ _ Hr) as Hsp.
  destruct (reachable_rows _ _ _ Hr) as [Er Ec].
  apply reachable_inv in Hr as [_ [_ [_ [Hsl [Hs0 _]]]]].
  destruct (parts (snake g)) as [|h t] eqn:Hp; [simpl in Hsl; lia|].
  apply (Game_update_no_panic_helper g draws msg h t Hp); rewrite ?Er, ?Ec;
    unfold i32_max in *; try lia.
  now inversion Hg.
Qed.

Lemma reachable_update_no_panic_witness :
  reachable 24 80 (mkGame 24 80 (mkSnake [mkPiece 12 40; mkPiece 12 39] Right false 0 500)
                     (mkFood 17 17 ".")) /\
  Game_update (mkGame 24 80 (mkSnake [mkPiece 12 40; mkPiece 12 39] Right false 0 500)
                 (mkFood 17 17 ".")) [] <> Panic "attempt to overflow"%string.
Proof.
  assert (H : reachable 24 80 (mkGame 24 80 (mkSnake [mkPiece 12 40; mkPiece 12 39] Right false 0 500)
                     (mkFood 17 17 ".")))
    by (apply reach_init; reflexivity).
  split; [exact H|].
  exact (reachable_update_no_panic 24 80 _ [] _
           ltac:(unfold i32_max; lia) ltac:(unfold i32_max; lia) ltac:(lia) H).
Defined.

(** ** Rendering *)

(** The glyphs [Snake::render] gives a body of [n] segments, head first. *)
Definition body_glyphs (n : nat) : list ascii :=
  match n with
  | O => []
  | S O => ["@"%char]
  | S (S k) => "@"%char :: repeat "O"%char k ++ ["o"%char]
  end.

Definition render_piece (pp : Position * SnakePiece) : Cmd :=
  let '(pos, p) := pp in AddCh (piece_y p) (piece_x p) (SnakePiece_get_visible_part pos).

Lemma tag_rest_render (b : SnakePiece) (l : list SnakePiece) :
  map render_piece (tag_rest (b :: l)) =
  map (fun '(p, c) => AddCh (piece_y p) (piece_x p) c)
      (combine (b :: l) (repeat "O"%char (List.length l) ++ ["o"%char])).
Proof.
  revert b. induction l as [|c l IH]; intro b; [reflexivity|].
  change (tag_rest (b :: c :: l)) with ((Middle, b) :: tag_rest (c :: l)).
  cbn [map render_piece]. rewrite IH. reflexivity.
Qed.




(** [Snake::render] draws one glyph per segment, at the segment's cell and
    in body order: ['@'] for the head, ['O'] for the segments between and
    ['o'] for the tail; a one-segment snake is drawn as ['@']. *)
Theorem Snake_render_glyphs (s : Snake) :
  Snake_render s =
  map (fun '(p, c) => AddCh (piece_y p) (piece_x p) c)
      (combine (parts s) (body_glyphs (List.length (parts s)))).
Proof.
  unfold Snake_render. destruct (parts s) as [|a [|b l]]; [reflexivity | reflexivity|].
  change (with_position (a :: b :: l)) with ((First, a) :: tag_rest (b :: l)).
  change (map (fun '(pos, p) => AddCh (piece_y p) (piece_x p) (SnakePiece_get_visible_part pos))
            ((First, a) :: tag_rest (b :: l)))
    with (AddCh (piece_y a) (piece_x a) "@" :: map render_piece (tag_rest (b :: l))).
  rewrite tag_rest_render. reflexivity.
Qed.




(** ** Input *)

Lemma Direction_input_None (c : ascii) :
  ~ In c ["w"; "a"; "s"; "d"; "h"; "j"; "k"; "l"]%char -> Direction_input c = None.
Proof.
  intro Hn. unfold Direction_input.
  repeat match goal with
         | |- context [Ascii.eqb c ?k] =>
             destruct (Ascii.eqb_spec c k) as [->|_];
             [exfalso; apply Hn; repeat (first [left; reflexivity | right]) |]
         end.
  reflexivity.
Qed.

(** [Game::input] changes nothing but the snake's heading and never turns
    it to the reverse of the current one; F1, any other non-character key
    and any character other than w, a, s, d, h, j, k, l leave the game as
    it is. *)
Theorem Game_input_key_spec (g : Game) (i : Input) :
  rows (Game_input_key g i) = rows g /\ cols (Game_input_key g i) = cols g /\
  food (Game_input_key g i) = food g /\
  parts (snake (Game_input_key g i)) = parts (snake g) /\
  just_eaten (snake (Game_input_key g i)) = just_eaten (snake g) /\
  score (snake (Game_input_key g i)) = score (snake g) /\
  speed (snake (Game_input_key g i)) = speed (snake g) /\
  dir (snake (Game_input_key g i)) <> opposite (dir (snake g)) /\
  ((forall c, i = Character c -> ~ In c ["w"; "a"; "s"; "d"; "h"; "j"; "k"; "l"]%char ->
     Game_input_key g i = g) /\
   (i = KeyF1 \/ i = OtherKey -> Game_input_key g i = g)).
Proof.
  destruct g as [r c0 [ps d je sc sp] f].
  assert (Hd : forall d', dir (Snake_set_direction (mkSnake ps d je sc sp) d') <> opposite d)
    by (intro d'; destruct d', d; cbn; discriminate).
  assert (Hnd : d <> opposite d) by (destruct d; discriminate).
  destruct i as [ch| |]; cbn [Game_input_key].
  - unfold Game_input.
    destruct (Direction_input ch) as [d'|] eqn:E; cbn; repeat split;
      try apply Hd; try exact Hnd; try (intros [Ei | Ei]; discriminate);
      try (intros; reflexivity).
    intros c' Ec Hn. injection Ec as <-. apply Direction_input_None in Hn. congruence.
  - repeat split; try exact Hnd; try (intros ? Ei; discriminate); reflexivity.
  - repeat split; try exact Hnd; try (intros ? Ei; discriminate); reflexivity.
Qed.

(** ** The main loop *)

Lemma Game_input_key_reachable (max_y max_x : Z) (g : Game) (i : Input) :
  reachable max_y max_x g -> reachable max_y max_x (Game_input_key g i).
Proof. intro H. destruct i; cbn [Game_input_key]; [apply reach_input|..]; exact H. Qed.

Lemma Game_update_reachable (max_y max_x : Z) (g : Game) (draws : list Z) (ok : bool) (g' : Game) :
  reachable max_y max_x g -> Game_update g draws = Ret (ok, g') -> reachable max_y max_x g'.
Proof.
  intros Hr Hu. destruct ok.
  - exact (reach_update _ _ _ _ _ Hr Hu).
  - apply Game_update_false in Hu. now subst.
Qed.

(** F1 ends [main]'s loop: the ticks after the first F1 are never read,
    whatever the game does in the tick of the F1 itself. *)
Theorem main_loop_stops_at_F1 (g : Game) (pre : list (option Input * list Z))
    (draws : list Z) (post : list (option Input * list Z)) :
  main_loop g (pre ++ (Some KeyF1, draws) :: post) =
  main_loop g (pre ++ [(Some KeyF1, draws)]).
Proof.
  revert g. induction pre as [|[key dr] pre IH]; intro g; cbn [app main_loop].
  - destruct (Game_update g draws) as [[ok g']| |]; cbn [bind]; [destruct ok|..]; reflexivity.
  - destruct key as [[c| |]|];
      destruct (Game_update _ dr) as [[ok g']| |]; cbn [bind]; try reflexivity;
      destruct ok; cbn [negb]; try reflexivity; rewrite IH; reflexivity.
Qed.

(** Every game [main]'s loop renders, and the game it ends with, is a state
    of [reachable]: the invariants proved for those states hold all along
    the loop. *)
Theorem main_loop_reachable (max_y max_x : Z) (g : Game)
    (ticks : list (option Input * list Z)) (frames : list Game) (final : Game) :
  reachable max_y max_x g ->
  main_loop g ticks = Ret (frames, final) ->
  Forall (reachable max_y max_x) frames /\ reachable max_y max_x final.
Proof.
  revert g frames. induction ticks as [|[key dr] ticks IH]; intros g frames Hr H;
    [discriminate|].
  assert (Hk : forall i, reachable max_y max_x (Game_input_key g i))
    by (intro i; now apply Game_input_key_reachable).
  cbn [main_loop] in H.
  destruct key as [[c| |]|];
    destruct (Game_update _ dr) as [[ok g']| |] eqn:Eu; cbn [bind] in H;
    try discriminate; destruct ok; cbn [negb] in H;
    first [ injection H as <- <-;
            split; [constructor; [exact Hr | constructor]|];
            eapply Game_update_reachable; [|exact Eu]; first [exact Hr | apply Hk]
          | apply bind_Ret_inv in H as [[fr gf] [Hm H]]; injection H as <- <-;
            assert (Hg' : reachable max_y max_x g')
              by (eapply Game_update_reachable; [|exact Eu]; first [exact Hr | apply Hk]);
            destruct (IH _ _ Hg' Hm) as [Hf Hfin]; split; [constructor|]; assumption ].
Qed.

Lemma main_loop_reachable_witness :
  reachable 24 80 (mkGame 24 80 (mkSnake [mkPiece 12 40; mkPiece 12 39] Right false 0 500)
                     (mkFood 17 17 ".")) /\
  main_loop (mkGame 24 80 (mkSnake [mkPiece 12 40; mkPiece 12 39] Right false 0 500)
               (mkFood 17 17 "."))
            [(None, []); (Some (Character "s"), []); (Some KeyF1, [])]
  = Ret ([mkGame 24 80 (mkSnake [mkPiece 12 40; mkPiece 12 39] Right false 0 500) (mkFood 17 17 ".");
          mkGame 24 80 (mkSnake [mkPiece 12 41; mkPiece 12 40] Right false 0 500) (mkFood 17 17 ".");
          mkGame 24 80 (mkSnake [mkPiece 13 41; mkPiece 12 41] Down false 0 500) (mkFood 17 17 ".")],
         mkGame 24 80 (mkSnake [mkPiece 14 41; mkPiece 13 41] Down false 0 500) (mkFood 17 17 ".")) /\
  reachable 24 80 (mkGame 24 80 (mkSnake [mkPiece 14 41; mkPiece 13 41] Down false 0 500)
                     (mkFood 17 17 ".")).
Proof.
  assert (H : reachable 24 80 (mkGame 24 80 (mkSnake [mkPiece 12 40; mkPiece 12 39] Right false 0 500)
                     (mkFood 17 17 ".")))
    by (apply reach_init; reflexivity).
  assert (E : main_loop (mkGame 24 80 (mkSnake [mkPiece 12 40; mkPiece 12 39] Right false 0 500)
               (mkFood 17 17 "."))
            [(None, []); (Some (Character "s"), []); (Some KeyF1, [])]
  = Ret ([mkGame 24 80 (mkSnake [mkPiece 12 40; mkPiece 12 39] Right false 0 500) (mkFood 17 17 ".");
          mkGame 24 80 (mkSnake [mkPiece 12 41; mkPiece 12 40] Right false 0 500) (mkFood 17 17 ".");
          mkGame 24 80 (mkSnake [mkPiece 13 41; mkPiece 12 41] Down false 0 500) (mkFood 17 17 ".")],
         mkGame 24 80 (mkSnake [mkPiece 14 41; mkPiece 13 41] Down false 0 500) (mkFood 17 17 ".")))
    by reflexivity.
  split; [exact H|]. split; [exact E|].
  exact (proj2 (main_loop_reachable 24 80 _ _ _ _ H E)).
Defined.
